(** * Segment resynchronisation of the dubbing bot (Bot.py)

    A shallow embedding of [change_audio_speed], [compress_video],
    [process_video] and the size check of [worker], with the properties of
    the resynchronisation pipeline proved over it.

    Conventions of the embedding.
    - Seconds and rates are Python floats in the source; here they are exact
      rationals ([Q]), compared with [Qle_bool] where the source compares
      with [<=], [<] or [>=].  Rounding of binary64 arithmetic is not
      modelled.
    - Temporary files are named by [tempfile.mktemp]; a name is a natural
      number drawn from a counter, and the file system is a finite map from
      names to contents.
    - whisper, googletrans, gTTS, librosa's phase vocoder and the ffmpeg
      encoder behind moviepy are collaborators outside the repository:
      they are the fields of [services], and each may fail ([None]).
    - The [progress] callback only formats and sends text; it is left out. *)

From Stdlib Require Import QArith Qabs Qround Lqa String Ascii Sorted.
From stdpp Require Import gmap list.

Local Open Scope Q_scope.

(** ** Data *)

(** One transcript segment of whisper: [s["start"]], [s["end"]], [s["text"]]. *)
Record segment := Segment {
  seg_start : Q;
  seg_end : Q;
  seg_text : string
}.

(** What [librosa.load(path, sr=None)] returns: the samples [y] and the
    sampling rate [sr] (a positive integer). *)
Record waveform := Waveform {
  wf_samples : list Q;
  wf_sr : positive
}.

(** [len(y) / sr], in seconds. *)
Definition seconds_of (n : nat) (sr : positive) : Q := Z.of_nat n # sr.

Definition wf_duration (w : waveform) : Q :=
  seconds_of (length (wf_samples w)) (wf_sr w).

(** A video clip cut from the source: [vid.subclipped(st, en)], followed by
    the [MultiplySpeed] factors given to [with_effects]. *)
Record v_clip := VClip {
  v_start : Q;
  v_end : Q;
  v_effects : list Q
}.

(** [AudioFileClip(path)]: the file it reads and the duration found in it
    when the clip is opened. *)
Record a_clip := AClip {
  a_file : nat;
  a_duration : Q
}.

(** moviepy's [MultiplySpeed(factor)] plays the clip at [factor] times its
    speed: the clip is re-timed with [t -> factor * t] and its duration
    becomes [duration / factor]. *)
Definition multiply_speed (factor : Q) (duration : Q) : Q := duration / factor.

Definition v_duration (c : v_clip) : Q :=
  fold_left (fun d f => multiply_speed f d) (v_effects c) (v_end c - v_start c).

(** An encoded video file: the clip sequences it was assembled from, the
    width it was scaled to if any, and its size in bytes. *)
Record movie := Movie {
  mv_video : list v_clip;
  mv_audio : list a_clip;
  mv_width : option N;
  mv_bytes : N
}.

(** The uploaded video as [VideoFileClip(path)] opens it: [vid.duration] and
    [vid.audio]. *)
Record video := Video {
  vid_duration : Q;
  vid_audio : waveform
}.

Inductive file :=
| FAudio (w : waveform)
| FUpload (v : video)
| FVideo (m : movie).

(** ** Collaborators outside the repository *)

Inductive collaborator := Whisper | GoogleTrans | GTTS | Librosa | Encoder.

Record services := Services {
  (** [WHISPER_MODEL.transcribe(wav)["segments"]] *)
  transcribe : waveform -> option (list segment);
  (** [TRANSLATOR.translate(eng, src="en", dest="hi").text] *)
  translate : string -> option string;
  (** [gTTS(hin, lang="hi").save(mp3)]: the audio stored in the mp3 *)
  tts : string -> option waveform;
  (** [librosa.effects.time_stretch(y, rate=rate)] *)
  time_stretch : list Q -> Q -> option (list Q);
  (** [write_videofile]: the size of the file written for these clips,
      scaled to the given width when there is one *)
  encode : list v_clip -> list a_clip -> option N -> option N
}.

(** ** Exceptions, the world, and the monad of the pipeline *)

Inductive exn :=
| External (who : collaborator)
| FileNotFound (path : nat)
| NotAudio (path : nat)
| NotVideo (path : nat).

Inductive result (A : Type) :=
| Ok (a : A)
| Raise (e : exn).
Arguments Ok {A} a.
Arguments Raise {A} e.

(** Calls into the collaborators that the properties speak about. *)
Inductive event :=
| EvStretch (src dst : nat) (rate : Q)
| EvEncode (dst : nat) (width : option N).

Record world := World {
  next_tmp : nat;
  fs : gmap nat file;
  trace : list event
}.

Definition M (A : Type) : Type := world -> world * result A.

Definition ret {A} (a : A) : M A := fun w => (w, Ok a).

Definition bind {A B} (m : M A) (k : A -> M B) : M B :=
  fun w => match m w with
           | (w', Ok a) => k a w'
           | (w', Raise e) => (w', Raise e)
           end.

Definition raise {A} (e : exn) : M A := fun w => (w, Raise e).

#[global] Instance M_ret : MRet M := @ret.
#[global] Instance M_bind : MBind M := fun A B k m => bind m k.

(** An answer of a collaborator, or the exception it raised. *)
Definition call {A} (who : collaborator) (r : option A) : M A :=
  match r with
  | Some a => ret a
  | None => raise (External who)
  end.

Definition emit (e : event) : M unit :=
  fun w => (World (next_tmp w) (fs w) (trace w ++ [e]), Ok tt).

(** [tempfile.mktemp(...)]: a name not handed out before; no file is
    created. *)
Definition mktemp : M nat :=
  fun w => (World (S (next_tmp w)) (fs w) (trace w), Ok (next_tmp w)).

Definition write_file (p : nat) (f : file) : M unit :=
  fun w => (World (next_tmp w) (<[p := f]> (fs w)) (trace w), Ok tt).

(** [librosa.load(p, sr=None)] and [AudioFileClip(p)] read an audio file. *)
Definition load_audio (p : nat) : M waveform :=
  fun w => match fs w !! p with
           | Some (FAudio a) => (w, Ok a)
           | Some _ => (w, Raise (NotAudio p))
           | None => (w, Raise (FileNotFound p))
           end.

(** [VideoFileClip(p)] on the uploaded video. *)
Definition load_upload (p : nat) : M video :=
  fun w => match fs w !! p with
           | Some (FUpload v) => (w, Ok v)
           | Some _ => (w, Raise (NotVideo p))
           | None => (w, Raise (FileNotFound p))
           end.

(** [VideoFileClip(p)] on a file written by [write_videofile]. *)
Definition load_video (p : nat) : M movie :=
  fun w => match fs w !! p with
           | Some (FVideo m) => (w, Ok m)
           | Some _ => (w, Raise (NotVideo p))
           | None => (w, Raise (FileNotFound p))
           end.

(** [os.remove(p)] *)
Definition remove (p : nat) : M unit :=
  fun w => match fs w !! p with
           | Some _ => (World (next_tmp w) (delete p (fs w)) (trace w), Ok tt)
           | None => (w, Raise (FileNotFound p))
           end.

(** [if os.path.exists(p): os.remove(p)] *)
Definition remove_if_exists (p : nat) : M unit :=
  fun w => (World (next_tmp w) (delete p (fs w)) (trace w), Ok tt).

(** ** Python primitives *)

(** [s["text"].strip()], on the ASCII white space of a byte string. *)
Definition is_space (c : ascii) : bool :=
  let n := nat_of_ascii c in
  (Nat.leb 9 n && Nat.leb n 13) || (Nat.leb 28 n && Nat.leb n 32).

Fixpoint lstrip (l : list ascii) : list ascii :=
  match l with
  | c :: l' => if is_space c then lstrip l' else l
  | [] => []
  end.

Definition strip (s : string) : string :=
  string_of_list_ascii
    (rev (lstrip (rev (lstrip (list_ascii_of_string s))))).

(** Python's [min(a, b)]: [b] only when it is strictly smaller. *)
Definition py_min (a b : Q) : Q := if Qle_bool a b then a else b.

(** [x < y] on floats. *)
Definition Qlt_bool (x y : Q) : bool := negb (Qle_bool y x).

(** Python's [round]: to the nearest integer, ties to the even one. *)
Definition py_round (x : Q) : Z :=
  let f := Qfloor x in
  let r := x - inject_Z f in
  if Qlt_bool r (1 # 2) then f
  else if Qlt_bool (1 # 2) r then (f + 1)%Z
  else if Z.even f then f else (f + 1)%Z.

(** ** Helpers *)

Section Pipeline.

Variable sv : services.

(** [change_audio_speed(src, dst, rate)] *)
Definition change_audio_speed (src dst : nat) (rate : Q) : M Q :=
  a ← load_audio src;
  emit (EvStretch src dst rate);;
  y_out ← call Librosa (time_stretch sv (wf_samples a) rate);
  write_file dst (FAudio (Waveform y_out (wf_sr a)));;
  ret (seconds_of (length y_out) (wf_sr a)).

(** [compress_video(src, dst)]: scale to width 480 and encode again. *)
Definition compress_video (src dst : nat) : M unit :=
  clip ← load_video src;
  emit (EvEncode dst (Some 480%N));;
  size ← call Encoder (encode sv (mv_video clip) (mv_audio clip) (Some 480%N));
  write_file dst (FVideo (Movie (mv_video clip) (mv_audio clip) (Some 480%N) size)).

(** ** Core pipeline *)

(** [v_clip.with_effects([MultiplySpeed(factor=f)])] *)
Definition with_effects (v : v_clip) (fx : list Q) : v_clip :=
  VClip (v_start v) (v_end v) (v_effects v ++ fx).

(** [AudioFileClip(p)] *)
Definition AudioFileClip (p : nat) : M a_clip :=
  a ← load_audio p;
  ret (AClip p (wf_duration a)).

(** Lines 89-102 of [process_video]: translate the text, synthesise it,
    and apply the fixed 1.10 speed-up.  Returns the three temporary files
    and the realised duration [fast_len]. *)
Definition synthesize (text : string) : M (nat * nat * nat * Q) :=
  let eng := strip text in
  hin ← call GoogleTrans (translate sv eng);
  let hin := strip hin in
  mp3 ← mktemp;
  spoken ← call GTTS (tts sv hin);
  write_file mp3 (FAudio spoken);;
  wav_in ← mktemp;
  a ← load_audio mp3;
  write_file wav_in (FAudio a);;
  wav_fast ← mktemp;
  fast_len ← change_audio_speed wav_in wav_fast (11 # 10);
  ret (mp3, wav_in, wav_fast, fast_len).

(** Lines 104-115 of [process_video]: fit the sped-up audio and the video
    window [st, en) of length [dur] to each other. *)
Definition fit (st en dur : Q) (wav_fast : nat) (fast_len : Q)
  : M (v_clip * a_clip) :=
  if Qle_bool fast_len dur then
    let rate := fast_len / dur in
    wav_adj ← mktemp;
    change_audio_speed wav_fast wav_adj rate;;
    a_clip ← AudioFileClip wav_adj;
    let v_clip := VClip st en [] in
    ret (v_clip, a_clip)
  else
    let slow := dur / fast_len in
    a_clip ← AudioFileClip wav_fast;
    let v_clip := VClip st en [] in
    let v_clip := if Qlt_bool slow 1 then with_effects v_clip [slow] else v_clip in
    ret (v_clip, a_clip).

(** Lines 89-120 of [process_video]: the body of the loop for a segment
    that passed the two guards.  The two [append]s of lines 116-117 are
    done by the loop with the pair returned here; the source removes
    [mp3] and [wav_in] just after them. *)
Definition dub_segment (st en dur : Q) (text : string) : M (v_clip * a_clip) :=
  tmp ← synthesize text;
  let '(mp3, wav_in, wav_fast, fast_len) := tmp in
  clips ← fit st en dur wav_fast fast_len;
  remove_if_exists mp3;;
  remove_if_exists wav_in;;
  ret clips.

(** The [for] loop of [process_video] (lines 81-120) over the segments
    still to visit, with the two lists it appends to.  [break] returns the
    lists as they are; [continue] goes on with the next segment. *)
Fixpoint segment_loop (D : Q) (segments : list segment)
    (v_clips : list v_clip) (a_clips : list a_clip)
  : M (list v_clip * list a_clip) :=
  match segments with
  | [] => ret (v_clips, a_clips)
  | s :: rest =>
    let st := seg_start s in
    let e0 := seg_end s in
    if Qle_bool D st then ret (v_clips, a_clips)
    else
      let en := py_min e0 D in
      let dur := en - st in
      if Qle_bool dur 0 then segment_loop D rest v_clips a_clips
      else
        clips ← dub_segment st en dur (seg_text s);
        segment_loop D rest (v_clips ++ [clips.1]) (a_clips ++ [clips.2])
  end.

(** [process_video(path, progress)] *)
Definition process_video (path : nat) : M nat :=
  vid ← load_upload path;
  wav ← mktemp;
  write_file wav (FAudio (vid_audio vid));;
  track ← load_audio wav;
  segments ← call Whisper (transcribe sv track);
  clips ← segment_loop (vid_duration vid) segments [] [];
  let '(v_clips, a_clips) := clips in
  out ← mktemp;
  emit (EvEncode out None);;
  size ← call Encoder (encode sv v_clips a_clips None);
  write_file out (FVideo (Movie v_clips a_clips None size));;
  remove wav;;
  ret out.

(** ** Size check of [worker] *)

Definition MAX_SIZE : N := 49 * 1024 * 1024.

(** [os.path.getsize(p)] of an encoded video. *)
Definition getsize (p : nat) : M N :=
  m ← load_video p;
  ret (mv_bytes m).

(** Lines 183-189 of [worker]: the file that is sent for the result [out]
    of [process_video]. *)
Definition ensure_under_limit (out : nat) : M nat :=
  size ← getsize out;
  if (MAX_SIZE <? size)%N then
    comp ← mktemp;
    compress_video out comp;;
    remove out;;
    ret comp
  else ret out.

(** The [try] block of [worker] up to the upload, followed by its
    [finally] block: [local] and whatever [out] is bound to at that point
    are removed when they exist.  Sending messages is left out. *)
Definition worker (local : nat) (w : world) : world :=
  let '(w1, out) :=
    match process_video local w with
    | (w1, Raise _) => (w1, None)
    | (w1, Ok out) =>
      match ensure_under_limit out w1 with
      | (w2, Ok out') => (w2, Some out')
      | (w2, Raise _) => (w2, Some out)
      end
    end in
  let w2 := fst (remove_if_exists local w1) in
  match out with
  | Some p => fst (remove_if_exists p w2)
  | None => w2
  end.

End Pipeline.

(** ** A reference engine, to run the pipeline on examples *)

(** A stand-in for librosa's phase vocoder: like [time_stretch] it refuses
    [rate <= 0] and returns [int(round(len(y) / rate))] samples; the
    samples themselves are silence. *)
Definition vocoder (y : list Q) (rate : Q) : option (list Q) :=
  if Qle_bool rate 0 then None
  else Some (repeat 0 (Z.to_nat (py_round (inject_Z (Z.of_nat (length y)) / rate)))).

(** Speech at 100 samples per second, a tenth of a second per character. *)
Definition speak (text : string) : option waveform :=
  Some (Waveform (repeat 0 (10 * String.length text)%nat) 100).

(** Services for examples: whisper answers [segs], the translator is the
    identity, and every encoded file has [size] bytes at full width and a
    fifth of it when scaled down. *)
Definition demo (segs : list segment) (size : N) : services :=
  Services (fun _ => Some segs) (fun s => Some s) speak vocoder
           (fun _ _ width => Some (match width with None => size | Some _ => size / 5 end)%N).

(** A world holding only the uploaded video, at name 0. *)
Definition upload (D : Q) : world :=
  World 1 {[ 0%nat := FUpload (Video D (Waveform [] 100)) ]} [].

(** A transcript for a video of ten seconds: two segments inside the
    video, one without length, one that runs over the end, and two that
    start after it. *)
Definition example_transcript : list segment :=
  [Segment 0 5 "hello world";
   Segment 5 7 "a much longer sentence than two seconds";
   Segment 7 7 "nothing";
   Segment 8 12 "cut at the end";
   Segment 11 12 "too late";
   Segment 12 13 "never visited"].

(** ** Vocabulary of the properties *)

(** The rates handed to [librosa.effects.time_stretch], in call order. *)
Definition rates_of (tr : list event) : list Q :=
  omap (fun e => match e with EvStretch _ _ r => Some r | _ => None end) tr.

(** The contract of the time-stretch engine for audio sampled at [sr]:
    it answers only for a positive rate, and the duration it realises is
    within [eps] of the original duration divided by the rate. *)
Definition stretch_contract (sv : services) (eps : Q) (sr : positive) : Prop :=
  forall y rate y_out,
    time_stretch sv y rate = Some y_out ->
    0 < rate /\
    Qabs (seconds_of (length y_out) sr - seconds_of (length y) sr / rate) <= eps.

(** A step of the pipeline never takes a name back: the counter behind
    [tempfile.mktemp] does not decrease, whether the step returns or
    raises. *)
Definition grows {A} (m : M A) : Prop :=
  forall w, (next_tmp w <= next_tmp (m w).1)%nat.


(** Start times that never decrease along the list. *)
Definition non_decreasing (l : list Q) : Prop := Sorted Qle l.

(** The clip that the loop cuts for a retained segment: its window starts
    at the segment's start and ends at the segment's end or at the end of
    the video, whichever comes first. *)
Definition cut_from (D : Q) (v : v_clip) (s : segment) : Prop :=
  v_start v = seg_start s /\ v_end v = py_min (seg_end s) D.

(** The segments for which a pair of clips is made, as the properties
    describe them: those before the first segment that starts at or after
    the end of the video, without the ones whose cut window has no
    positive length. *)
Fixpoint retained (D : Q) (segments : list segment) : list segment :=
  match segments with
  | [] => []
  | s :: rest =>
    if Qle_bool D (seg_start s) then []
    else if Qle_bool (py_min (seg_end s) D - seg_start s) 0 then retained D rest
    else s :: retained D rest
  end.

(** From the name [b] on, the world holds audio files only. *)
Definition audio_from (b : nat) (w : world) : Prop :=
  forall p f, (b <= p)%nat -> fs w !! p = Some f -> exists a, f = FAudio a.

(** What a step that works on its own temporary files, the names from [b]
    on, leaves of a world: the counter does not decrease, the files below
    [b] are as they were, and if there were only audio files from [b] on,
    there still are. *)
Definition keeps (b : nat) (w w' : world) : Prop :=
  (next_tmp w <= next_tmp w')%nat /\
  (forall p, (p < b)%nat -> fs w' !! p = fs w !! p) /\
  (audio_from b w -> audio_from b w').

(** A step that, started when the counter has reached [b], keeps the
    world in that sense whether it returns or raises, and whose value
    satisfies [Q] when it returns. *)
Definition scoped {A} (b : nat) (m : M A) (Q : A -> Prop) : Prop :=
  forall w, (b <= next_tmp w)%nat ->
    keeps b w (m w).1 /\ forall a, (m w).2 = Ok a -> Q a.

(** An audio clip whose file is there, with audio of the duration noted
    in the clip. *)
Definition backed (w : world) (c : a_clip) : Prop :=
  exists y sr, fs w !! a_file c = Some (FAudio (Waveform y sr)) /\
               a_duration c = seconds_of (length y) sr.


(** A video clip that the source video can give: a window of positive
    length that ends within the video, played as it is or with one
    speed factor strictly between 0 and 1. *)
Definition playable (D : Q) (v : v_clip) : Prop :=
  v_start v < v_end v /\ v_end v <= D /\
  (v_effects v = [] \/ exists f, v_effects v = [f] /\ 0 < f < 1).

(** The two guards of the loop on one segment, taken alone: the segment
    starts before the end of the video, and its window, cut at the end
    of the video, has a positive length. *)
Definition dubbable (D : Q) (s : segment) : bool :=
  negb (Qle_bool D (seg_start s))
  && negb (Qle_bool (py_min (seg_end s) D - seg_start s) 0).

(** * Properties *)

(** ** Running the monad *)

Lemma bind_ok {A B} (m : M A) (k : A -> M B) w w1 a :
  m w = (w1, Ok a) -> (m ≫= k) w = k a w1.
Proof. intros H. unfold mbind, M_bind, bind. now rewrite H. Qed.

(** A run of [m ≫= k] that returns went through a run of [m] that returned. *)
Lemma bind_inv {A B} (m : M A) (k : A -> M B) w w' b :
  (m ≫= k) w = (w', Ok b) ->
  exists w1 a, m w = (w1, Ok a) /\ k a w1 = (w', Ok b).
Proof.
  unfold mbind, M_bind, bind. destruct (m w) as [w1 [a|e]]; intros H.
  - now exists w1, a.
  - discriminate.
Qed.

Lemma Qlt_bool_iff x y : Qlt_bool x y = true <-> x < y.
Proof.
  unfold Qlt_bool. rewrite negb_true_iff. split; intros H.
  - apply Qnot_le_lt. intros Hle. apply Qle_bool_iff in Hle. congruence.
  - destruct (Qle_bool y x) eqn:E; [|reflexivity].
    apply Qle_bool_iff in E. exfalso. now apply (Qlt_not_le x y).
Qed.

Lemma Qle_bool_false x y : Qle_bool x y = false <-> y < x.
Proof.
  rewrite <- Qlt_bool_iff. unfold Qlt_bool.
  now destruct (Qle_bool x y).
Qed.

(** ** The guards of the loop *)

(** C3. Clipping and skip cascade.  A segment that starts at or after the
    end of the video stops the loop: nothing is appended for it or for any
    later segment and no collaborator is called.  A segment whose window,
    once its end is cut to the end of the video, has no positive length is
    passed over without any effect.  A segment that reaches beyond the end
    of the video is dubbed with its end replaced by the video's duration
    and its length recomputed from it. *)
Theorem clipping_and_skip_cascade sv D s rest v_clips a_clips w :
  (D <= seg_start s ->
   segment_loop sv D (s :: rest) v_clips a_clips w = (w, Ok (v_clips, a_clips)))
  /\
  (seg_start s < D -> py_min (seg_end s) D - seg_start s <= 0 ->
   segment_loop sv D (s :: rest) v_clips a_clips w
   = segment_loop sv D rest v_clips a_clips w)
  /\
  (seg_start s < D -> D < seg_end s ->
   0 < D - seg_start s /\
   segment_loop sv D (s :: rest) v_clips a_clips w
   = (dub_segment sv (seg_start s) D (D - seg_start s) (seg_text s) ≫=
      fun clips => segment_loop sv D rest (v_clips ++ [clips.1]) (a_clips ++ [clips.2])) w).
Proof.
  split; [|split].
  - intros Hbreak. apply Qle_bool_iff in Hbreak. simpl. now rewrite Hbreak.
  - intros Hin Hempty. apply Qle_bool_false in Hin. apply Qle_bool_iff in Hempty.
    simpl. now rewrite Hin, Hempty.
  - intros Hin Hlong. split; [lra|].
    assert (Hcut : py_min (seg_end s) D = D).
    { unfold py_min. apply Qle_bool_false in Hlong. now rewrite Hlong. }
    assert (Hpos : Qle_bool (D - seg_start s) 0 = false).
    { apply Qle_bool_false. lra. }
    apply Qle_bool_false in Hin.
    simpl. now rewrite Hin, Hcut, Hpos.
Qed.

(** The witness: in a video of ten seconds, a segment from 11 to 12 stops
    the loop before a segment from 1 to 2; a segment from 8 to 8 is passed
    over; a segment from 7 to 12 is dubbed on the window from 7 to 10. *)
Lemma clipping_and_skip_cascade_witness :
  let sv := demo [] 0 in
  let w := upload 10 in
  segment_loop sv 10 [Segment 11 12 "late"; Segment 1 2 "lost"] [] [] w
  = (w, Ok ([], []))
  /\
  segment_loop sv 10 [Segment 8 8 "none"; Segment 1 2 "next"] [] [] w
  = segment_loop sv 10 [Segment 1 2 "next"] [] [] w
  /\
  segment_loop sv 10 [Segment 7 12 "long"] [] [] w
  = (dub_segment sv 7 10 (10 - 7) "long" ≫=
     fun clips => segment_loop sv 10 [] ([] ++ [clips.1]) ([] ++ [clips.2])) w.
Proof.
  intros sv w. split; [|split].
  - apply (clipping_and_skip_cascade sv 10 (Segment 11 12 "late")
             [Segment 1 2 "lost"] [] [] w).
    discriminate.
  - apply (clipping_and_skip_cascade sv 10 (Segment 8 8 "none")
             [Segment 1 2 "next"] [] [] w).
    + reflexivity.
    + discriminate.
  - apply (clipping_and_skip_cascade sv 10 (Segment 7 12 "long") [] [] [] w).
    + reflexivity.
    + reflexivity.
Defined.

(** ** The stretch helper *)

(** What [change_audio_speed] does on a readable source, by the answer of
    the library. *)
Lemma change_audio_speed_run sv src dst rate y sr w :
  fs w !! src = Some (FAudio (Waveform y sr)) ->
  change_audio_speed sv src dst rate w =
  match time_stretch sv y rate with
  | Some y_out =>
      (World (next_tmp w) (<[dst := FAudio (Waveform y_out sr)]> (fs w))
             (trace w ++ [EvStretch src dst rate]),
       Ok (seconds_of (length y_out) sr))
  | None =>
      (World (next_tmp w) (fs w) (trace w ++ [EvStretch src dst rate]),
       Raise (External Librosa))
  end.
Proof.
  intros Hsrc.
  unfold change_audio_speed, mbind, M_bind, bind, load_audio.
  rewrite Hsrc. simpl.
  now destruct (time_stretch sv y rate).
Qed.

(** C7, as the code has it.  [change_audio_speed] checks neither the rate
    nor the number of samples: on a readable source it raises exactly
    when librosa's [time_stretch] raises, and that exception is the one
    that propagates; otherwise it writes the stretched samples at the
    source's sampling rate and returns their duration [len(y_out) / sr]. *)
Theorem change_audio_speed_raises_iff sv src dst rate y sr w :
  fs w !! src = Some (FAudio (Waveform y sr)) ->
  ((exists e, (change_audio_speed sv src dst rate w).2 = Raise e)
   <-> time_stretch sv y rate = None)
  /\
  (time_stretch sv y rate = None ->
   (change_audio_speed sv src dst rate w).2 = Raise (External Librosa))
  /\
  (forall y_out, time_stretch sv y rate = Some y_out ->
   (change_audio_speed sv src dst rate w).2 = Ok (seconds_of (length y_out) sr)
   /\ fs (change_audio_speed sv src dst rate w).1
      = <[dst := FAudio (Waveform y_out sr)]> (fs w)).
Proof.
  intros Hsrc. rewrite (change_audio_speed_run sv src dst rate y sr w Hsrc).
  destruct (time_stretch sv y rate) as [y_out|]; simpl.
  - split; [|split].
    + split; [intros [e He]; discriminate | discriminate].
    + discriminate.
    + intros ? [= <-]. split; reflexivity.
  - split; [|split].
    + split; [reflexivity | intros _; eexists; reflexivity].
    + reflexivity.
    + discriminate.
Qed.

(** The witness: a two-second clip at 100 Hz, stretched at rate 2. *)
Lemma change_audio_speed_raises_iff_witness :
  (change_audio_speed (demo [] 0) 1 2 2
     (World 2 {[ 1%nat := FAudio (Waveform (repeat 0 200%nat) 100) ]} [])).2
  = Ok (100 # 100).
Proof.
  pose proof (change_audio_speed_raises_iff (demo [] 0) 1 2 2
                (repeat 0 200%nat) 100
                (World 2 {[ 1%nat := FAudio (Waveform (repeat 0 200%nat) 100) ]} [])
                eq_refl) as (_ & _ & Hok).
  destruct (Hok (repeat 0 100%nat) eq_refl) as [Hret _].
  exact Hret.
Defined.

(** C7, as stated, fails.  With an engine that, like librosa, refuses
    only a rate that is not positive, an audio file without any sample is
    stretched without any exception: the helper returns a duration of
    zero seconds. *)
Lemma empty_audio_is_not_refused :
  change_audio_speed (demo [] 0) 1 2 (11 # 10)
    (World 2 {[ 1%nat := FAudio (Waveform [] 100) ]} [])
  = (World 2 (<[ 2%nat := FAudio (Waveform [] 100) ]>
                {[ 1%nat := FAudio (Waveform [] 100) ]})
             [EvStretch 1 2 (11 # 10)],
     Ok (seconds_of 0 100)).
Proof. reflexivity. Qed.

(** ** One segment *)

(** The first half of the loop body, by the answers of the collaborators:
    three names are drawn, the speech is stored twice, and its 1.10 times
    faster version is stored under the third name. *)
Lemma synthesize_run sv text hin spoken w :
  translate sv (strip text) = Some hin ->
  tts sv (strip hin) = Some spoken ->
  let n := next_tmp w in
  let stored := <[S n := FAudio spoken]> (<[n := FAudio spoken]> (fs w)) in
  let tr := trace w ++ [EvStretch (S n) (S (S n)) (11 # 10)] in
  synthesize sv text w =
  match time_stretch sv (wf_samples spoken) (11 # 10) with
  | Some y_fast =>
      (World (S (S (S n)))
             (<[S (S n) := FAudio (Waveform y_fast (wf_sr spoken))]> stored) tr,
       Ok (n, S n, S (S n), seconds_of (length y_fast) (wf_sr spoken)))
  | None => (World (S (S (S n))) stored tr, Raise (External Librosa))
  end.
Proof.
  intros Htr Htts n stored tr.
  unfold synthesize, mbind, M_bind, bind, mktemp, call, write_file, load_audio.
  rewrite Htr. simpl. rewrite Htts. simpl.
  rewrite lookup_insert_eq.
  destruct spoken as [y sr].
  erewrite change_audio_speed_run by (simpl; apply lookup_insert_eq).
  simpl. now destruct (time_stretch sv y (11 # 10)).
Qed.

(** Case A of [fit]: the second stretch, at rate [fast_len / dur]. *)
Lemma fit_case_A sv st en dur wav_fast fast_len y sr w :
  fs w !! wav_fast = Some (FAudio (Waveform y sr)) ->
  fast_len <= dur ->
  let wav_adj := next_tmp w in
  let tr := trace w ++ [EvStretch wav_fast wav_adj (fast_len / dur)] in
  fit sv st en dur wav_fast fast_len w =
  match time_stretch sv y (fast_len / dur) with
  | Some y_adj =>
      (World (S wav_adj) (<[wav_adj := FAudio (Waveform y_adj sr)]> (fs w)) tr,
       Ok (VClip st en [], AClip wav_adj (seconds_of (length y_adj) sr)))
  | None => (World (S wav_adj) (fs w) tr, Raise (External Librosa))
  end.
Proof.
  intros Hfile Hle wav_adj tr. apply Qle_bool_iff in Hle.
  unfold fit. rewrite Hle.
  unfold mbind, M_bind, bind, mktemp.
  erewrite change_audio_speed_run by (simpl; exact Hfile).
  destruct (time_stretch sv y (fast_len / dur)) as [y_adj|]; [|reflexivity].
  unfold AudioFileClip, mbind, M_bind, bind, load_audio. simpl.
  now rewrite lookup_insert_eq.
Qed.

Lemma slow_below_one dur fast_len : 0 < dur -> dur < fast_len -> dur / fast_len < 1.
Proof.
  intros Hpos Hlt. apply Qlt_shift_div_r; lra.
Qed.

(** Case B of [fit]: no stretch, no new file; the video window gets the
    factor [dur / fast_len]. *)
Lemma fit_case_B sv st en dur wav_fast fast_len y sr w :
  fs w !! wav_fast = Some (FAudio (Waveform y sr)) ->
  0 < dur -> dur < fast_len ->
  fit sv st en dur wav_fast fast_len w =
  (w, Ok (VClip st en [dur / fast_len],
          AClip wav_fast (seconds_of (length y) sr))).
Proof.
  intros Hfile Hpos Hlt.
  assert (Hslow : Qlt_bool (dur / fast_len) 1 = true).
  { apply Qlt_bool_iff. now apply slow_below_one. }
  apply Qle_bool_false in Hlt.
  unfold fit. rewrite Hlt, Hslow.
  unfold AudioFileClip, mbind, M_bind, bind, load_audio.
  now rewrite Hfile.
Qed.

(** The video clip that a run of [fit] returns, whatever the files hold. *)
Lemma fit_video_clip sv st en dur wav_fast fast_len w w' v a :
  fit sv st en dur wav_fast fast_len w = (w', Ok (v, a)) ->
  v = if Qle_bool fast_len dur then VClip st en []
      else if Qlt_bool (dur / fast_len) 1 then VClip st en [dur / fast_len]
      else VClip st en [].
Proof.
  unfold fit. destruct (Qle_bool fast_len dur).
  - intros H.
    apply bind_inv in H as (w1 & wav_adj & _ & H).
    apply bind_inv in H as (w2 & len & _ & H).
    apply bind_inv in H as (w3 & ac & _ & H).
    now injection H as _ <- _.
  - intros H.
    apply bind_inv in H as (w1 & ac & _ & H).
    injection H as _ <- _.
    now destruct (Qlt_bool (dur / fast_len) 1).
Qed.

(** ** The reference engine meets the contract *)

Lemma py_round_close x : Qabs (inject_Z (py_round x) - x) <= 1 # 2.
Proof.
  pose proof (Qfloor_le x) as Hlo.
  pose proof (Qlt_floor x) as Hhi.
  rewrite inject_Z_plus in Hhi. change (inject_Z 1) with 1 in Hhi.
  apply Qabs_Qle_condition. unfold py_round.
  destruct (Qlt_bool (x - inject_Z (Qfloor x)) (1 # 2)) eqn:Hdown.
  - apply Qlt_bool_iff in Hdown. split; lra.
  - assert (Hge : 1 # 2 <= x - inject_Z (Qfloor x)).
    { apply Qnot_lt_le. intros Hlt. apply Qlt_bool_iff in Hlt. congruence. }
    assert (Hup : - (1 # 2) <= inject_Z (Qfloor x + 1) - x
                  /\ inject_Z (Qfloor x + 1) - x <= 1 # 2).
    { rewrite inject_Z_plus. change (inject_Z 1) with 1. split; lra. }
    destruct (Qlt_bool (1 # 2) (x - inject_Z (Qfloor x))) eqn:Hmore; [exact Hup|].
    assert (Hle : x - inject_Z (Qfloor x) <= 1 # 2).
    { apply Qnot_lt_le. intros Hlt. apply Qlt_bool_iff in Hlt. congruence. }
    destruct (Z.even (Qfloor x)); [split; lra | exact Hup].
Qed.

Lemma py_round_nonneg x : 0 <= x -> (0 <= py_round x)%Z.
Proof.
  intros Hx. apply Qfloor_resp_le in Hx. change (Qfloor 0) with 0%Z in Hx.
  unfold py_round.
  destruct (Qlt_bool _ _); [lia|].
  destruct (Qlt_bool _ _); [lia|].
  destruct (Z.even _); lia.
Qed.

Lemma vocoder_contract segs size sr :
  stretch_contract (demo segs size) (1 # (2 * sr)) sr.
Proof.
  intros y rate y_out H. simpl in H. unfold vocoder in H.
  destruct (Qle_bool rate 0) eqn:Hrate; [discriminate|].
  injection H as <-. apply Qle_bool_false in Hrate.
  split; [exact Hrate|].
  rewrite repeat_length.
  set (n := inject_Z (Z.of_nat (length y))).
  assert (Hn : 0 <= n).
  { unfold n. change 0 with (inject_Z 0). rewrite <- Zle_Qle. lia. }
  assert (Hx : 0 <= n / rate).
  { apply Qle_shift_div_l; lra. }
  pose proof (py_round_close (n / rate)) as Hclose.
  apply Qabs_Qle_condition in Hclose.
  unfold seconds_of. rewrite Z2Nat.id by now apply py_round_nonneg.
  set (k := py_round (n / rate)) in *.
  rewrite !Qmake_Qdiv. fold n.
  set (S := inject_Z (Z.pos sr)).
  assert (HS : 0 < S).
  { unfold S. change 0 with (inject_Z 0). rewrite <- Zlt_Qlt. lia. }
  assert (Ht : 0 < / S) by now apply Qinv_lt_0_compat.
  assert (E1 : inject_Z k / S - n / S / rate == (inject_Z k - n / rate) * / S)
    by (field; split; lra).
  assert (E2 : inject_Z 1 / inject_Z (Z.pos (2 * sr)) == (1 # 2) * / S).
  { unfold S. rewrite Pos2Z.inj_mul, inject_Z_mult.
    change (inject_Z 1) with 1. change (inject_Z 2) with 2.
    field. fold S. lra. }
  rewrite E1, E2.
  apply Qabs_Qle_condition. split.
  - assert (E3 : - ((1 # 2) * / S) == (- (1 # 2)) * / S) by ring.
    rewrite E3. apply Qmult_le_compat_r; lra.
  - apply Qmult_le_compat_r; lra.
Qed.

(** ** The two ways of fitting a segment *)

(** Stretching audio of length [fast_len] at the rate [fast_len / dur]
    with an engine that honours its contract gives audio of length [dur],
    up to [eps]. *)
Lemma stretched_to_window sv eps sr y dur y_adj :
  let fast_len := seconds_of (length y) sr in
  stretch_contract sv eps sr ->
  0 < dur ->
  time_stretch sv y (fast_len / dur) = Some y_adj ->
  Qabs (seconds_of (length y_adj) sr - dur) <= eps.
Proof.
  intros fast_len Hcontract Hdur Hadj.
  destruct (Hcontract _ _ _ Hadj) as [Hrate Hclose].
  assert (Hfast : 0 < fast_len).
  { destruct (Qlt_le_dec 0 fast_len) as [|Hno]; [assumption|].
    exfalso. apply (Qlt_not_le _ _ Hrate).
    apply Qle_shift_div_r; lra. }
  fold fast_len in Hclose.
  assert (E : fast_len / (fast_len / dur) == dur) by (field; split; lra).
  now rewrite E in Hclose.
Qed.

(** C1. Window fit, Case A.  When the 1.10 times faster audio is not
    longer than the window, it is stretched a second time at the rate
    [fast_len / dur]; the video clip is the window [st, en) without any
    effect; and with an engine that honours its contract up to [eps], the
    audio clip lasts as long as the window up to [eps]. *)
Theorem caseA_window_fit sv eps st en wav_fast y sr y_adj w :
  let dur := en - st in
  let fast_len := seconds_of (length y) sr in
  stretch_contract sv eps sr ->
  fs w !! wav_fast = Some (FAudio (Waveform y sr)) ->
  0 < dur ->
  fast_len <= dur ->
  time_stretch sv y (fast_len / dur) = Some y_adj ->
  exists w' a,
    fit sv st en dur wav_fast fast_len w = (w', Ok (VClip st en [], a)) /\
    trace w' = trace w ++ [EvStretch wav_fast (a_file a) (fast_len / dur)] /\
    fs w' !! a_file a = Some (FAudio (Waveform y_adj sr)) /\
    a_duration a = seconds_of (length y_adj) sr /\
    v_duration (VClip st en []) == dur /\
    Qabs (a_duration a - dur) <= eps.
Proof.
  intros dur fast_len Hcontract Hfile Hdur Hle Hadj.
  pose proof (fit_case_A sv st en dur wav_fast fast_len y sr w Hfile Hle) as Hfit.
  simpl in Hfit. rewrite Hadj in Hfit.
  eexists _, _. split; [exact Hfit|]. simpl.
  split; [reflexivity|]. split; [apply lookup_insert_eq|].
  split; [reflexivity|]. split; [reflexivity|].
  now apply (stretched_to_window sv eps sr y dur y_adj).
Qed.

(** The witness: four seconds of audio in a window of five. *)
Lemma caseA_window_fit_witness :
  exists w' a,
    fit (demo [] 0) 0 5 (5 - 0) 1 (seconds_of (length (repeat 0 400%nat)) 100)
        (World 2 {[ 1%nat := FAudio (Waveform (repeat 0 400%nat) 100) ]} [])
    = (w', Ok (VClip 0 5 [], a)) /\
    Qabs (a_duration a - (5 - 0)) <= 1 # 200.
Proof.
  destruct (caseA_window_fit (demo [] 0) (1 # 200) 0 5 1
              (repeat 0 400%nat) 100 (repeat 0 500%nat)
              (World 2 {[ 1%nat := FAudio (Waveform (repeat 0 400%nat) 100) ]} []))
    as (w' & a & Hfit & _ & _ & _ & _ & Hclose).
  - apply vocoder_contract.
  - reflexivity.
  - reflexivity.
  - discriminate.
  - reflexivity.
  - exists w', a. split; [exact Hfit | exact Hclose].
Defined.

(** C2, as the code has it.  Video fit, Case B.  When the 1.10 times
    faster audio is longer than the window, nothing is stretched and no
    file is written: the audio clip is that audio as it is, [fast_len]
    long, and the video window gets [MultiplySpeed] with the factor
    [slow = dur / fast_len].  The factor is below 1, so the video plays
    slower, and its duration grows from [dur] to [dur / slow], which is
    the audio's duration. *)
Theorem caseB_video_fit sv st en wav_fast y sr w :
  let dur := en - st in
  let fast_len := seconds_of (length y) sr in
  fs w !! wav_fast = Some (FAudio (Waveform y sr)) ->
  0 < dur ->
  dur < fast_len ->
  fit sv st en dur wav_fast fast_len w
  = (w, Ok (VClip st en [dur / fast_len], AClip wav_fast fast_len)) /\
  0 < dur / fast_len < 1 /\
  v_duration (VClip st en [dur / fast_len]) == fast_len /\
  dur < v_duration (VClip st en [dur / fast_len]).
Proof.
  intros dur fast_len Hfile Hdur Hlt.
  split; [now apply (fit_case_B sv st en dur wav_fast fast_len y sr w)|].
  split.
  { split; [apply Qlt_shift_div_l; lra | now apply slow_below_one]. }
  assert (E : v_duration (VClip st en [dur / fast_len]) == fast_len).
  { unfold v_duration, multiply_speed. simpl. fold dur. field. split; lra. }
  split; [exact E | now rewrite E].
Qed.

(** The witness: six seconds of audio in a window of five. *)
Lemma caseB_video_fit_witness :
  fit (demo [] 0) 0 5 (5 - 0) 1 (seconds_of (length (repeat 0 600%nat)) 100)
      (World 2 {[ 1%nat := FAudio (Waveform (repeat 0 600%nat) 100) ]} [])
  = (World 2 {[ 1%nat := FAudio (Waveform (repeat 0 600%nat) 100) ]} [],
     Ok (VClip 0 5 [(5 - 0) / seconds_of (length (repeat 0 600%nat)) 100],
         AClip 1 (seconds_of (length (repeat 0 600%nat)) 100))).
Proof.
  apply (caseB_video_fit (demo [] 0) 0 5 1 (repeat 0 600%nat) 100
           (World 2 {[ 1%nat := FAudio (Waveform (repeat 0 600%nat) 100) ]} [])).
  - reflexivity.
  - reflexivity.
  - reflexivity.
Defined.

(** C2, as stated, fails.  In the scenario of a five-second window and
    six seconds of audio, the video clip does not shrink to [dur * slow],
    about 4.17 seconds: it is not shorter than its window at all, it
    lasts the six seconds of the audio. *)
Lemma caseB_video_is_not_shortened :
  exists v a,
    fit (demo [] 0) 0 5 5 1 6
        (World 2 {[ 1%nat := FAudio (Waveform (repeat 0 600%nat) 100) ]} [])
    = (World 2 {[ 1%nat := FAudio (Waveform (repeat 0 600%nat) 100) ]} [],
       Ok (v, a)) /\
    v_effects v = [5 / 6] /\
    ~ v_duration v == 5 * (5 / 6) /\
    ~ v_duration v < 5 /\
    v_duration v == 6 /\
    a_duration a == 6.
Proof.
  exists (VClip 0 5 [5 / 6]), (AClip 1 (600 # 100)).
  split; [vm_compute; reflexivity|].
  split; [reflexivity|].
  split; [intros H; vm_compute in H; discriminate|].
  split; [intros H; vm_compute in H; discriminate|].
  split; reflexivity.
Qed.

(** C4, as the code has it.  The factor [slow = dur / fast_len] is given
    to [MultiplySpeed] exactly when the audio is longer than the window,
    and it is then strictly between 0 and 1: the guard [slow < 1] never
    holds it back.  A factor below 1 lowers the playback speed, so a
    video clip is never sped up: it lasts at least as long as its window,
    longer in Case B and exactly as long in Case A. *)
Theorem video_factor_below_one sv st en wav_fast fast_len w w' v a :
  let dur := en - st in
  0 < dur ->
  fit sv st en dur wav_fast fast_len w = (w', Ok (v, a)) ->
  (fast_len <= dur -> v_effects v = [] /\ v_duration v == dur) /\
  (dur < fast_len -> v_effects v = [dur / fast_len] /\ dur < v_duration v) /\
  Forall (fun f => 0 < f < 1) (v_effects v) /\
  dur <= v_duration v.
Proof.
  intros dur Hdur Hfit. apply fit_video_clip in Hfit.
  destruct (Qle_bool fast_len dur) eqn:Hcase.
  - apply Qle_bool_iff in Hcase. subst v. simpl.
    split; [intros _; split; reflexivity|].
    split; [intros Hlt; exfalso; lra|].
    split; [constructor|]. unfold v_duration. simpl. fold dur. lra.
  - apply Qle_bool_false in Hcase.
    assert (Hslow : dur / fast_len < 1) by now apply slow_below_one.
    assert (Hpos : 0 < dur / fast_len) by (apply Qlt_shift_div_l; lra).
    assert (E : v_duration (VClip st en [dur / fast_len]) == fast_len).
    { unfold v_duration, multiply_speed. simpl. fold dur. field. split; lra. }
    apply Qlt_bool_iff in Hslow as Hguard. rewrite Hguard in Hfit. subst v.
    split; [intros Hle; exfalso; lra|].
    split; [intros _; split; [reflexivity | now rewrite E]|].
    split; [repeat constructor; assumption|].
    rewrite E. lra.
Qed.

(** The witness: three seconds of audio in the window from 2 to 4. *)
Lemma video_factor_below_one_witness :
  Forall (fun f => 0 < f < 1) (v_effects (VClip 2 4 [(4 - 2) / 3])) /\
  4 - 2 <= v_duration (VClip 2 4 [(4 - 2) / 3]).
Proof.
  refine (proj2 (proj2 (video_factor_below_one (demo [] 0) 2 4 1 3
    (World 2 {[ 1%nat := FAudio (Waveform (repeat 0 300%nat) 100) ]} [])
    (World 2 {[ 1%nat := FAudio (Waveform (repeat 0 300%nat) 100) ]} [])
    (VClip 2 4 [(4 - 2) / 3]) (AClip 1 (300 # 100)) _ _))).
  - reflexivity.
  - vm_compute. reflexivity.
Defined.

(** C4, as stated, fails.  Three seconds of audio for the window from 2
    to 4: the video clip gets the factor 2/3 and is slowed down, it lasts
    three seconds for two seconds of source. *)
Lemma video_is_slowed_down :
  exists v a,
    fit (demo [] 0) 2 4 2 1 3
        (World 2 {[ 1%nat := FAudio (Waveform (repeat 0 300%nat) 100) ]} [])
    = (World 2 {[ 1%nat := FAudio (Waveform (repeat 0 300%nat) 100) ]} [],
       Ok (v, a)) /\
    v_effects v = [2 / 3] /\
    v_end v - v_start v < v_duration v /\
    v_duration v == 3.
Proof.
  exists (VClip 2 4 [2 / 3]), (AClip 1 (300 # 100)).
  split; [vm_compute; reflexivity|].
  split; [reflexivity|]. split; reflexivity.
Qed.

(** ** The rates given to the engine *)

Lemma trace_after_cleanup (m : M (v_clip * a_clip)) p q w :
  trace ((m ≫= fun clips => remove_if_exists p;; remove_if_exists q;; mret clips) w).1
  = trace (m w).1.
Proof.
  unfold mbind, M_bind, bind. now destruct (m w) as [w1 [clips|e]].
Qed.

(** C10. Stretch rates.  For a segment whose window has a positive length,
    the engine is called with the rate 1.10 and, in Case A, with
    [fast_len / dur].  When the 1.10 times faster audio has at least one
    sample, every rate is strictly positive.  When it has none, its
    duration is zero, Case A is taken, and the second call is made with a
    rate equal to zero. *)
Theorem stretch_rates_positive_unless_silent sv st en text hin spoken y_fast w :
  let dur := en - st in
  let n := next_tmp w in
  0 < dur ->
  translate sv (strip text) = Some hin ->
  tts sv (strip hin) = Some spoken ->
  time_stretch sv (wf_samples spoken) (11 # 10) = Some y_fast ->
  exists evs,
    trace (dub_segment sv st en dur text w).1 = trace w ++ evs /\
    (y_fast <> [] -> Forall (Qlt 0) (rates_of evs)) /\
    (y_fast = [] ->
     exists rate,
       evs = [EvStretch (S n) (S (S n)) (11 # 10);
              EvStretch (S (S n)) (S (S (S n))) rate] /\
       rate = seconds_of 0 (wf_sr spoken) / dur /\
       rate == 0).
Proof.
  intros dur n Hdur Htr Htts Hfast.
  pose proof (synthesize_run sv text hin spoken w Htr Htts) as Hsyn.
  simpl in Hsyn. rewrite Hfast in Hsyn. fold n in Hsyn.
  unfold dub_segment. rewrite (bind_ok _ _ _ _ _ Hsyn).
  rewrite trace_after_cleanup.
  set (fast_len := seconds_of (length y_fast) (wf_sr spoken)).
  set (w1 := World _ _ _).
  assert (Hfile : fs w1 !! S (S n)
                  = Some (FAudio (Waveform y_fast (wf_sr spoken))))
    by apply lookup_insert_eq.
  destruct (Qle_bool fast_len dur) eqn:Hcase.
  - apply Qle_bool_iff in Hcase.
    rewrite (fit_case_A sv st en dur _ fast_len _ _ w1 Hfile Hcase).
    exists [EvStretch (S n) (S (S n)) (11 # 10);
            EvStretch (S (S n)) (S (S (S n))) (fast_len / dur)].
    split.
    { destruct (time_stretch sv y_fast (fast_len / dur)); simpl;
        now rewrite <- app_assoc. }
    split.
    + intros Hsome. simpl.
      assert (Hpos : 0 < fast_len).
      { unfold fast_len, seconds_of, Qlt. simpl.
        destruct y_fast; [congruence | simpl; lia]. }
      repeat constructor. apply Qlt_shift_div_l; lra.
    + intros ->. exists (fast_len / dur).
      split; [reflexivity|]. split; [reflexivity|].
      unfold fast_len, seconds_of. simpl. unfold Qeq. simpl. reflexivity.
  - apply Qle_bool_false in Hcase.
    rewrite (fit_case_B sv st en dur _ fast_len _ _ w1 Hfile Hdur Hcase).
    exists [EvStretch (S n) (S (S n)) (11 # 10)].
    split; [reflexivity|]. split.
    + intros _. simpl. repeat constructor.
    + intros ->. exfalso.
      unfold fast_len, seconds_of in Hcase. simpl in Hcase.
      assert (E : 0 # wf_sr spoken == 0) by reflexivity.
      rewrite E in Hcase. lra.
Qed.

(** The witness: speech without any sample for a window of five seconds. *)
Lemma stretch_rates_positive_unless_silent_witness :
  exists evs rate,
    trace (dub_segment (demo [] 0) 0 5 (5 - 0) "" (upload 10)).1
    = trace (upload 10) ++ evs /\
    evs = [EvStretch 2 3 (11 # 10); EvStretch 3 4 rate] /\
    rate == 0.
Proof.
  destruct (stretch_rates_positive_unless_silent (demo [] 0) 0 5
              "" "" (Waveform [] 100) [] (upload 10))
    as (evs & Htrace & _ & Hsilent).
  - reflexivity.
  - reflexivity.
  - reflexivity.
  - reflexivity.
  - destruct (Hsilent eq_refl) as (rate & Hevs & _ & Hzero).
    exists evs, rate. split; [exact Htrace|]. split; [exact Hevs | exact Hzero].
Defined.

(** ** The loop *)

(** The video clip of a dubbed segment is cut at the window it was asked
    for. *)
Lemma dub_segment_window sv st en dur text w w' v a :
  dub_segment sv st en dur text w = (w', Ok (v, a)) ->
  v_start v = st /\ v_end v = en.
Proof.
  unfold dub_segment. intros H.
  apply bind_inv in H as (w1 & [[[mp3 wav_in] wav_fast] fast_len] & _ & H).
  apply bind_inv in H as (w2 & [v0 a0] & Hfit & H).
  apply bind_inv in H as (w3 & [] & _ & H).
  apply bind_inv in H as (w4 & [] & _ & H).
  injection H as _ -> ->.
  apply fit_video_clip in Hfit. subst v.
  destruct (Qle_bool fast_len dur); [now split|].
  destruct (Qlt_bool (dur / fast_len) 1); now split.
Qed.

(** What a run of the loop that returns has appended: one video clip and
    one audio clip for each retained segment, in the order of the
    segments, the video clip cut at the segment's window. *)
Lemma segment_loop_appends sv D segs :
  forall v a w w' v' a',
    segment_loop sv D segs v a w = (w', Ok (v', a')) ->
    exists vs aus,
      v' = v ++ vs /\ a' = a ++ aus /\
      Forall2 (cut_from D) vs (retained D segs) /\
      length aus = length (retained D segs).
Proof.
  induction segs as [|s rest IH]; intros v a w w' v' a' H; simpl in H.
  - injection H as _ <- <-. exists [], []. rewrite !app_nil_r.
    repeat split; constructor.
  - simpl. destruct (Qle_bool D (seg_start s)).
    + injection H as _ <- <-. exists [], []. rewrite !app_nil_r.
      repeat split; constructor.
    + destruct (Qle_bool (py_min (seg_end s) D - seg_start s) 0).
      * exact (IH _ _ _ _ _ _ H).
      * apply bind_inv in H as (w1 & [v1 a1] & Hdub & H).
        apply dub_segment_window in Hdub.
        apply IH in H as (vs & aus & -> & -> & Hcut & Hlen).
        exists (v1 :: vs), (a1 :: aus). rewrite <- !app_assoc. simpl.
        repeat split; try reflexivity.
        -- constructor; [exact Hdub | exact Hcut].
        -- now rewrite Hlen.
Qed.


Lemma retained_Forall D (P : segment -> Prop) segs :
  Forall P segs -> Forall P (retained D segs).
Proof.
  induction 1 as [|s rest Hs Hrest IH]; simpl; [constructor|].
  destruct (Qle_bool D (seg_start s)); [constructor|].
  destruct (Qle_bool _ 0); [assumption | now constructor].
Qed.

Lemma retained_non_decreasing D segs :
  non_decreasing (map seg_start segs) ->
  non_decreasing (map seg_start (retained D segs)).
Proof.
  unfold non_decreasing. intros Hsorted.
  apply StronglySorted_Sorted.
  apply Sorted_StronglySorted in Hsorted; [|exact Qle_trans].
  induction segs as [|s rest IH]; simpl; [constructor|].
  inversion Hsorted as [|x l Hrest Hall]; subst.
  destruct (Qle_bool D (seg_start s)); [constructor|].
  destruct (Qle_bool _ 0); [now apply IH|].
  simpl. constructor; [now apply IH|].
  apply Forall_map. apply retained_Forall.
  exact (proj1 (Forall_map seg_start (Qle (seg_start s)) rest) Hall).
Qed.

Lemma cut_from_starts D vs kept :
  Forall2 (cut_from D) vs kept -> map v_start vs = map seg_start kept.
Proof.
  induction 1 as [|v s vs kept [Hst _] _ IH]; simpl; [reflexivity|].
  now rewrite Hst, IH.
Qed.

Lemma clip_lists_length_aux sv D segs w w' v' a' :
  segment_loop sv D segs [] [] w = (w', Ok (v', a')) ->
  length v' = length a'.
Proof.
  intros Hloop.
  apply segment_loop_appends in Hloop as (vs & aus & -> & -> & Hcut & Hlen).
  apply Forall2_length in Hcut. simpl. lia.
Qed.



(** The clips of a run of the loop from empty lists are those of the
    retained segments, one for one and in the same order; when the starts
    of the segments never decrease, neither do the starts of the clips. *)
Lemma segment_loop_order sv D segs w w' v' a' :
  segment_loop sv D segs [] [] w = (w', Ok (v', a')) ->
  Forall2 (cut_from D) v' (retained D segs) /\
  length a' = length (retained D segs) /\
  map v_start v' = map seg_start (retained D segs) /\
  (non_decreasing (map seg_start segs) -> non_decreasing (map v_start v')).
Proof.
  intros Hloop.
  apply segment_loop_appends in Hloop as (vs & aus & -> & -> & Hcut & Hlen).
  simpl. split; [exact Hcut|]. split; [exact Hlen|].
  pose proof (cut_from_starts D vs _ Hcut) as Hstarts.
  split; [exact Hstarts|].
  intros Hsorted. rewrite Hstarts. now apply retained_non_decreasing.
Qed.

(** ** The size check *)




(** ** Temporary audio files *)

(** A run of [synthesize] that returns, by the answers of the
    collaborators. *)
Lemma synthesize_inv sv text w w1 tmp :
  synthesize sv text w = (w1, Ok tmp) ->
  exists hin spoken y_fast,
    translate sv (strip text) = Some hin /\
    tts sv (strip hin) = Some spoken /\
    time_stretch sv (wf_samples spoken) (11 # 10) = Some y_fast.
Proof.
  intros H.
  destruct (translate sv (strip text)) as [hin|] eqn:Htr.
  - destruct (tts sv (strip hin)) as [spoken|] eqn:Htts.
    + rewrite (synthesize_run sv text hin spoken w Htr Htts) in H.
      destruct (time_stretch sv (wf_samples spoken) (11 # 10)) as [y_fast|] eqn:E;
        [|discriminate].
      now exists hin, spoken, y_fast.
    + unfold synthesize, mbind, M_bind, bind, mktemp, call in H.
      rewrite Htr in H. simpl in H. rewrite Htts in H. discriminate.
  - unfold synthesize, mbind, M_bind, bind, call in H.
    rewrite Htr in H. discriminate.
Qed.

(** Of the files made for one segment, the synthesised speech and its
    copy are removed before the next segment, and the 1.10 times faster
    audio is not: it is still there when the segment is done, in Case A
    next to the second stretch. *)
Lemma dub_segment_leaves_fast_audio sv st en dur text w w' v a :
  0 < dur ->
  dub_segment sv st en dur text w = (w', Ok (v, a)) ->
  let n := next_tmp w in
  fs w' !! n = None /\
  fs w' !! S n = None /\
  is_Some (fs w' !! S (S n)) /\
  is_Some (fs w' !! a_file a) /\
  (a_file a = S (S n) \/ a_file a = S (S (S n))).
Proof.
  intros Hdur H n. unfold dub_segment in H.
  apply bind_inv in H as (w1 & tmp & Hsyn & H).
  destruct (synthesize_inv _ _ _ _ _ Hsyn) as (hin & spoken & y_fast & Htr & Htts & Hfast).
  rewrite (synthesize_run sv text hin spoken w Htr Htts) in Hsyn.
  rewrite Hfast in Hsyn. injection Hsyn as <- <-. fold n in H.
  apply bind_inv in H as (w2 & [v0 a0] & Hfit & H).
  unfold mbind, M_bind, bind, remove_if_exists in H. simpl in H.
  injection H as <- <- <-. simpl.
  set (fast_len := seconds_of (length y_fast) (wf_sr spoken)) in *.
  set (w1 := World _ _ _) in Hfit.
  assert (Hfile : fs w1 !! S (S n)
                  = Some (FAudio (Waveform y_fast (wf_sr spoken))))
    by apply lookup_insert_eq.
  destruct (Qle_bool fast_len dur) eqn:Hcase.
  - apply Qle_bool_iff in Hcase.
    rewrite (fit_case_A sv st en dur _ fast_len _ _ w1 Hfile Hcase) in Hfit.
    destruct (time_stretch sv y_fast (fast_len / dur)); [|discriminate].
    injection Hfit as <- <- <-. simpl.
    repeat split.
    + rewrite lookup_delete_ne by lia. apply lookup_delete_eq.
    + apply lookup_delete_eq.
    + rewrite !lookup_delete_ne by lia. rewrite lookup_insert_ne by lia.
      rewrite lookup_insert_eq. eauto.
    + rewrite !lookup_delete_ne by lia. rewrite lookup_insert_eq. eauto.
    + now right.
  - apply Qle_bool_false in Hcase.
    rewrite (fit_case_B sv st en dur _ fast_len _ _ w1 Hfile Hdur Hcase) in Hfit.
    injection Hfit as <- <- <-. simpl.
    repeat split.
    + rewrite lookup_delete_ne by lia. apply lookup_delete_eq.
    + apply lookup_delete_eq.
    + rewrite !lookup_delete_ne by lia. rewrite lookup_insert_eq. eauto.
    + rewrite !lookup_delete_ne by lia. rewrite lookup_insert_eq. eauto.
    + now left.
Qed.

(** C8. Temporary audio files after a whole request.  For a transcript of
    one segment, the files 4 and 5 (the 1.10 times faster audio and its
    second stretch) are still there when [worker] has finished, its
    [finally] block included; for the example transcript there are five
    such files.  The uploaded video, the extracted audio, the speech
    files and the result are all gone by then. *)
Theorem temp_audio_left_behind :
  dom (fs (worker (demo [Segment 0 5 "hello world"] 1000) 0 (upload 10)))
  = ({[ 4%nat; 5%nat ]} : gset nat)
  /\
  dom (fs (worker (demo example_transcript 1000) 0 (upload 10)))
  = ({[ 4%nat; 5%nat; 8%nat; 11%nat; 12%nat ]} : gset nat).
Proof. split; vm_compute; reflexivity. Qed.

(** ** Every pair of the timeline *)



(** ** Names are never handed out twice *)

Section Grows.

Context {A : Type}.

Lemma grows_ret (a : A) : grows (ret a).
Proof. intros w. reflexivity. Qed.

Lemma grows_mret (a : A) : grows (mret a : M A).
Proof. intros w. reflexivity. Qed.

Lemma grows_raise e : grows (raise e : M A).
Proof. intros w. reflexivity. Qed.

Lemma grows_call who (r : option A) : grows (call who r).
Proof. intros w. now destruct r. Qed.

Lemma grows_bind {B} (m : M A) (k : A -> M B) :
  grows m -> (forall a, grows (k a)) -> grows (m ≫= k).
Proof.
  intros Hm Hk w. unfold mbind, M_bind, bind.
  specialize (Hm w). destruct (m w) as [w1 [a|e]]; simpl in *.
  - specialize (Hk a w1). lia.
  - exact Hm.
Qed.

End Grows.

Lemma grows_emit e : grows (emit e).
Proof. intros w. reflexivity. Qed.

Lemma grows_mktemp : grows mktemp.
Proof. intros w. simpl. lia. Qed.

Lemma grows_write_file p f : grows (write_file p f).
Proof. intros w. reflexivity. Qed.

Lemma grows_load_audio p : grows (load_audio p).
Proof. intros w. unfold load_audio. now destruct (fs w !! p) as [[]|]. Qed.

Lemma grows_load_video p : grows (load_video p).
Proof. intros w. unfold load_video. now destruct (fs w !! p) as [[]|]. Qed.

Lemma grows_remove p : grows (remove p).
Proof. intros w. unfold remove. now destruct (fs w !! p). Qed.

Lemma grows_remove_if_exists p : grows (remove_if_exists p).
Proof. intros w. reflexivity. Qed.

Create HintDb grows.
#[local] Hint Resolve grows_ret grows_mret grows_raise grows_call grows_emit
  grows_mktemp grows_write_file grows_load_audio grows_load_video
  grows_remove grows_remove_if_exists : grows.

Ltac grows_steps :=
  repeat first
    [ apply grows_bind; [|intros ?]
    | progress auto with grows nocore
    | match goal with
      | |- grows (let '(_, _) := ?x in _) => destruct x
      | |- grows (if ?b then _ else _) => destruct b
      end ].

Lemma grows_change_audio_speed sv src dst rate :
  grows (change_audio_speed sv src dst rate).
Proof. unfold change_audio_speed. grows_steps. Qed.

#[local] Hint Resolve grows_change_audio_speed : grows.

Lemma grows_dub_segment sv st en dur text :
  grows (dub_segment sv st en dur text).
Proof.
  unfold dub_segment, synthesize, fit, AudioFileClip. grows_steps.
Qed.

Lemma grows_segment_loop sv D segs :
  forall v a, grows (segment_loop sv D segs v a).
Proof.
  induction segs as [|s rest IH]; intros v a; simpl.
  - apply grows_ret.
  - destruct (Qle_bool D (seg_start s)); [apply grows_ret|].
    destruct (Qle_bool _ 0); [apply IH|].
    apply grows_bind; [apply grows_dub_segment | intros clips; apply IH].
Qed.

(** ** The whole of [process_video] *)

(** A run of [process_video] that returns has read the upload, got a
    transcript, run the loop from empty lists, and written the clips of
    the loop, as they are, to the file it names. *)
Lemma process_video_timeline sv path w w' out :
  process_video sv path w = (w', Ok out) ->
  exists vid segs w1 w2 v a size,
    fs w !! path = Some (FUpload vid) /\
    transcribe sv (vid_audio vid) = Some segs /\
    segment_loop sv (vid_duration vid) segs [] [] w1 = (w2, Ok (v, a)) /\
    encode sv v a None = Some size /\
    fs w' !! out = Some (FVideo (Movie v a None size)).
Proof.
  intros H.
  unfold process_video, mbind, M_bind, bind, load_upload, mktemp, write_file,
    load_audio, call, emit in H.
  destruct (fs w !! path) as [[?|vid|?]|] eqn:Hpath; try discriminate.
  simpl in H. rewrite lookup_insert_eq in H.
  destruct (transcribe sv (vid_audio vid)) as [segs|] eqn:Hsegs; [|discriminate].
  simpl in H.
  set (w1 := World _ _ _) in H.
  pose proof (grows_segment_loop sv (vid_duration vid) segs [] [] w1) as Hgrow.
  destruct (segment_loop sv (vid_duration vid) segs [] [] w1)
    as [w2 [[v a]|e]] eqn:Hloop; [|discriminate].
  simpl in H, Hgrow.
  destruct (encode sv v a None) as [size|] eqn:Hsize; [|discriminate].
  simpl in H. unfold remove in H. simpl in H.
  destruct (_ !! next_tmp w) in H; [|discriminate].
  simpl in H. injection H as <- <-. simpl.
  exists vid, segs, w1, w2, v, a, size.
  repeat split; try assumption.
  rewrite lookup_delete_ne by lia. apply lookup_insert_eq.
Qed.

(** The two lists given to the assembly have the same length. *)
Lemma process_video_lists_same_length sv path w w' out :
  process_video sv path w = (w', Ok out) ->
  exists m, fs w' !! out = Some (FVideo m) /\
            length (mv_video m) = length (mv_audio m).
Proof.
  intros H.
  apply process_video_timeline in H
    as (vid & segs & w1 & w2 & v & a & size & _ & _ & Hloop & _ & Hout).
  exists (Movie v a None size). split; [exact Hout|]. simpl.
  now apply (clip_lists_length_aux sv _ _ _ _ _ _ Hloop).
Qed.




(** * Further properties of the pipeline *)

(** ** Steps that work on their own temporary files *)

Lemma keeps_refl b w : keeps b w w.
Proof. repeat split; auto. Qed.

Lemma keeps_trans b w1 w2 w3 : keeps b w1 w2 -> keeps b w2 w3 -> keeps b w1 w3.
Proof.
  intros (Hn1 & Hf1 & Ha1) (Hn2 & Hf2 & Ha2). repeat split.
  - lia.
  - intros p Hp. now rewrite Hf2, Hf1.
  - auto.
Qed.

Lemma scoped_ret {A} b (a : A) (Q : A -> Prop) : Q a -> scoped b (mret a : M A) Q.
Proof.
  intros HQ w _. split; [apply keeps_refl|].
  now intros a' [= <-].
Qed.

Lemma scoped_bind {A B} b (m : M A) (k : A -> M B) (Q : A -> Prop) (R : B -> Prop) :
  scoped b m Q -> (forall a, Q a -> scoped b (k a) R) -> scoped b (m ≫= k) R.
Proof.
  intros Hm Hk w Hb. destruct (Hm w Hb) as [Hkeep Hpost].
  unfold mbind, M_bind, bind. destruct (m w) as [w1 [a|e]]; simpl in *.
  - assert (Hb1 : (b <= next_tmp w1)%nat) by (destruct Hkeep; lia).
    destruct (Hk a (Hpost a eq_refl) w1 Hb1) as [Hkeep1 Hpost1].
    split; [now apply (keeps_trans b w w1) | exact Hpost1].
  - split; [exact Hkeep | discriminate].
Qed.

Lemma scoped_weaken {A} b (m : M A) (Q R : A -> Prop) :
  (forall a, Q a -> R a) -> scoped b m Q -> scoped b m R.
Proof.
  intros HQR Hm w Hb. destruct (Hm w Hb) as [Hkeep Hpost].
  split; [exact Hkeep | auto].
Qed.

Lemma scoped_call {A} b who (r : option A) : scoped b (call who r) (fun _ => True).
Proof.
  intros w _. destruct r; (split; [apply keeps_refl | auto]).
Qed.

Lemma scoped_emit b e : scoped b (emit e) (fun _ => True).
Proof. intros w _. split; [|auto]. repeat split; auto. Qed.

Lemma scoped_mktemp b : scoped b mktemp (fun p => (b <= p)%nat).
Proof.
  intros w Hb. split.
  - repeat split; simpl; auto.
  - now intros a [= <-].
Qed.

Lemma scoped_load_audio b p : scoped b (load_audio p) (fun _ => True).
Proof.
  intros w _. unfold load_audio.
  destruct (fs w !! p) as [[]|]; (split; [apply keeps_refl | auto]).
Qed.

Lemma scoped_write_audio b p a :
  (b <= p)%nat -> scoped b (write_file p (FAudio a)) (fun _ => True).
Proof.
  intros Hp w _. split; [|auto]. repeat split; simpl; auto.
  - intros q Hq. apply lookup_insert_ne. lia.
  - intros Haudio q f Hq Hf. simpl in Hf.
    destruct (decide (p = q)) as [->|Hne].
    + rewrite lookup_insert_eq in Hf. injection Hf as <-. eauto.
    + rewrite lookup_insert_ne in Hf by exact Hne. eauto.
Qed.

Lemma scoped_remove_if_exists b p :
  (b <= p)%nat -> scoped b (remove_if_exists p) (fun _ => True).
Proof.
  intros Hp w _. split; [|auto]. repeat split; simpl; auto.
  - intros q Hq. apply lookup_delete_ne. lia.
  - intros Haudio q f Hq Hf. simpl in Hf.
    destruct (decide (p = q)) as [->|Hne].
    + now rewrite lookup_delete_eq in Hf.
    + rewrite lookup_delete_ne in Hf by exact Hne. eauto.
Qed.

Lemma scoped_change_audio_speed sv b src dst rate :
  (b <= dst)%nat ->
  scoped b (change_audio_speed sv src dst rate) (fun _ => True).
Proof.
  intros Hdst. unfold change_audio_speed.
  eapply scoped_bind; [apply scoped_load_audio | intros a _].
  eapply scoped_bind; [apply scoped_emit | intros _ _].
  eapply scoped_bind; [apply scoped_call | intros y_out _].
  eapply scoped_bind; [now apply scoped_write_audio | intros _ _].
  now apply scoped_ret.
Qed.

Lemma scoped_synthesize sv b text :
  scoped b (synthesize sv text)
         (fun tmp => (b <= tmp.1.1.1)%nat /\ (b <= tmp.1.1.2)%nat).
Proof.
  unfold synthesize.
  eapply scoped_bind; [apply scoped_call | intros hin _].
  eapply scoped_bind; [apply scoped_mktemp | intros mp3 Hmp3].
  eapply scoped_bind; [apply scoped_call | intros spoken _].
  eapply scoped_bind; [now apply scoped_write_audio | intros _ _].
  eapply scoped_bind; [apply scoped_mktemp | intros wav_in Hwav_in].
  eapply scoped_bind; [apply scoped_load_audio | intros a _].
  eapply scoped_bind; [now apply scoped_write_audio | intros _ _].
  eapply scoped_bind; [apply scoped_mktemp | intros wav_fast Hwav_fast].
  eapply scoped_bind; [now apply scoped_change_audio_speed | intros fast_len _].
  now apply scoped_ret.
Qed.

Lemma scoped_fit sv b st en dur wav_fast fast_len :
  scoped b (fit sv st en dur wav_fast fast_len) (fun _ => True).
Proof.
  unfold fit, AudioFileClip. destruct (Qle_bool fast_len dur).
  - eapply scoped_bind; [apply scoped_mktemp | intros wav_adj Hadj].
    eapply scoped_bind; [now apply scoped_change_audio_speed | intros _ _].
    eapply scoped_bind; [|intros a_clip _; now apply scoped_ret].
    eapply scoped_bind; [apply scoped_load_audio | intros a _].
    now apply (scoped_ret b _ (fun _ => True)).
  - eapply scoped_bind; [|intros a_clip _; now apply scoped_ret].
    eapply scoped_bind; [apply scoped_load_audio | intros a _].
    now apply (scoped_ret b _ (fun _ => True)).
Qed.

Lemma scoped_dub_segment sv b st en dur text :
  scoped b (dub_segment sv st en dur text) (fun _ => True).
Proof.
  unfold dub_segment.
  eapply scoped_bind; [apply scoped_synthesize|].
  intros [[[mp3 wav_in] wav_fast] fast_len] [Hmp3 Hwav_in]. simpl in *.
  eapply scoped_bind; [apply scoped_fit | intros clips _].
  eapply scoped_bind; [now apply scoped_remove_if_exists | intros _ _].
  eapply scoped_bind; [now apply scoped_remove_if_exists | intros _ _].
  now apply scoped_ret.
Qed.

Lemma scoped_segment_loop sv b D segs :
  forall v a, scoped b (segment_loop sv D segs v a) (fun _ => True).
Proof.
  induction segs as [|s rest IH]; intros v a; simpl.
  - now apply (scoped_ret b _ (fun _ => True)).
  - destruct (Qle_bool D (seg_start s));
      [now apply (scoped_ret b _ (fun _ => True))|].
    destruct (Qle_bool _ 0); [apply IH|].
    eapply scoped_bind; [apply scoped_dub_segment | intros clips _; apply IH].
Qed.

(** ** Explicit runs *)




(** [process_video] on a readable upload, by the answers of whisper, of
    the loop and of the encoder. *)
Lemma process_video_run sv path vid w :
  fs w !! path = Some (FUpload vid) ->
  let wav := next_tmp w in
  let w1 := World (S wav) (<[wav := FAudio (vid_audio vid)]> (fs w)) (trace w) in
  process_video sv path w =
  match transcribe sv (vid_audio vid) with
  | None => (w1, Raise (External Whisper))
  | Some segs =>
    match segment_loop sv (vid_duration vid) segs [] [] w1 with
    | (w2, Raise e) => (w2, Raise e)
    | (w2, Ok (v, a)) =>
      let out := next_tmp w2 in
      let tr := trace w2 ++ [EvEncode out None] in
      match encode sv v a None with
      | None => (World (S out) (fs w2) tr, Raise (External Encoder))
      | Some size =>
        (World (S out)
               (delete wav (<[out := FVideo (Movie v a None size)]> (fs w2))) tr,
         Ok out)
      end
    end
  end.
Proof.
  intros Hpath wav w1.
  unfold process_video, mbind, M_bind, bind, load_upload, mktemp, write_file,
    load_audio, call, emit.
  rewrite Hpath. simpl. rewrite lookup_insert_eq.
  destruct (transcribe sv (vid_audio vid)) as [segs|]; [|reflexivity].
  simpl. fold wav. fold w1.
  destruct (scoped_segment_loop sv (S wav) (vid_duration vid) segs [] [] w1)
    as [(Hnext & Hframe & _) _]; [simpl; lia|].
  destruct (segment_loop sv (vid_duration vid) segs [] [] w1)
    as [w2 [[v a]|e]]; [|reflexivity].
  simpl in *.
  destruct (encode sv v a None) as [size|]; [|reflexivity].
  simpl. unfold remove. simpl.
  rewrite lookup_insert_ne by lia.
  rewrite Hframe by lia. unfold w1. simpl. rewrite lookup_insert_eq.
  reflexivity.
Qed.

(** [process_video] on a name that holds no upload. *)
Lemma process_video_no_upload sv path w :
  (forall vid, fs w !! path <> Some (FUpload vid)) ->
  exists e, process_video sv path w = (w, Raise e)
            /\ (e = FileNotFound path \/ e = NotVideo path).
Proof.
  intros Hno. unfold process_video, mbind, M_bind, bind, load_upload.
  destruct (fs w !! path) as [[a|vid|m]|] eqn:Hpath.
  - exists (NotVideo path). auto.
  - now destruct (Hno vid).
  - exists (NotVideo path). auto.
  - exists (FileNotFound path). auto.
Qed.

(** The size check on a result that is there, by the answer of the
    encoder. *)
Lemma ensure_under_limit_run sv out m w :
  fs w !! out = Some (FVideo m) ->
  (out < next_tmp w)%nat ->
  let comp := next_tmp w in
  let tr := trace w ++ [EvEncode comp (Some 480%N)] in
  ensure_under_limit sv out w =
  if (MAX_SIZE <? mv_bytes m)%N then
    match encode sv (mv_video m) (mv_audio m) (Some 480%N) with
    | Some size =>
      (World (S comp)
             (delete out
                (<[comp := FVideo (Movie (mv_video m) (mv_audio m) (Some 480%N) size)]>
                   (fs w))) tr,
       Ok comp)
    | None => (World (S comp) (fs w) tr, Raise (External Encoder))
    end
  else (w, Ok out).
Proof.
  intros Hfile Hold comp tr.
  unfold ensure_under_limit, getsize, compress_video, load_video, remove,
    mbind, M_bind, bind, mktemp, emit, call, write_file.
  rewrite Hfile. simpl.
  destruct (MAX_SIZE <? mv_bytes m)%N; [|now destruct w].
  simpl. rewrite Hfile. simpl.
  destruct (encode sv (mv_video m) (mv_audio m) (Some 480%N)); [|reflexivity].
  simpl. rewrite lookup_insert_ne by (unfold comp; lia).
  now rewrite Hfile.
Qed.

(** ** Files that were there before *)

(** The world in which the loop of [process_video] starts keeps the one
    the function was called in. *)
Lemma keeps_extracted_audio w a :
  keeps (next_tmp w) w
        (World (S (next_tmp w)) (<[next_tmp w := FAudio a]> (fs w)) (trace w)).
Proof.
  destruct (scoped_bind (next_tmp w) mktemp
              (fun wav => write_file wav (FAudio a))
              (fun p => (next_tmp w <= p)%nat) (fun _ => True)
              (scoped_mktemp _)
              (fun p Hp => scoped_write_audio _ p a Hp) w (le_n _)) as [H _].
  exact H.
Qed.



(** Lookups in a map built from insertions and removals. *)
Ltac lookups :=
  intros;
  repeat (rewrite lookup_delete || rewrite lookup_insert);
  repeat case_decide; subst; auto; try lia; try congruence.

(** The files after [worker], file by file: there is a world [wk] that
    keeps the one [worker] was called in, and each file after [worker] is
    either gone or as in [wk]; the upload is gone, and the other files
    that were there before are as in [wk]. *)
Lemma worker_lookup sv local w :
  exists wk,
    keeps (next_tmp w) w wk /\
    fs (worker sv local w) !! local = None /\
    (forall p, fs (worker sv local w) !! p = None
               \/ fs (worker sv local w) !! p = fs wk !! p) /\
    (forall p, (p < next_tmp w)%nat -> p <> local ->
               fs (worker sv local w) !! p = fs wk !! p).
Proof.
  unfold worker.
  destruct (fs w !! local) as [[a|vid|m]|] eqn:Hlocal.
  2:{ rewrite (process_video_run sv local vid w Hlocal).
      set (wav := next_tmp w). set (w1 := World _ _ _).
      pose proof (keeps_extracted_audio w (vid_audio vid)) as Hk1.
      fold wav in Hk1. fold w1 in Hk1.
      destruct (transcribe sv (vid_audio vid)) as [segs|].
      2:{ exists w1. split; [exact Hk1|]. simpl. repeat split; lookups. }
      destruct (scoped_segment_loop sv wav (vid_duration vid) segs [] [] w1)
        as [Hk2 _]; [simpl; lia|].
      destruct (scoped_segment_loop sv (S wav) (vid_duration vid) segs [] [] w1)
        as [(Hnext & _ & _) _]; [simpl; lia|].
      pose proof (keeps_trans _ _ _ _ Hk1 Hk2) as Hk.
      destruct (segment_loop sv (vid_duration vid) segs [] [] w1)
        as [w2 [[v au]|e]]; simpl in Hk, Hnext |- *.
      2:{ exists w2. split; [exact Hk|]. repeat split; lookups. }
      set (out := next_tmp w2) in *.
      destruct (encode sv v au None) as [size|].
      2:{ exists w2. split; [exact Hk|]. simpl. repeat split; lookups. }
      set (w3 := World (S out) _ _).
      assert (Hout : fs w3 !! out = Some (FVideo (Movie v au None size))).
      { unfold w3. simpl. rewrite lookup_delete_ne by lia.
        apply lookup_insert_eq. }
      rewrite (ensure_under_limit_run sv out _ w3 Hout) by (simpl; lia).
      exists w2. split; [exact Hk|]. clear Hout. clearbody wav out.
      destruct (MAX_SIZE <? mv_bytes _)%N;
        [destruct (encode sv _ _ (Some 480%N))|]; simpl.
      all: repeat split; lookups. }
  all: destruct (process_video_no_upload sv local w) as (e & -> & _);
    [intros vid; rewrite Hlocal; discriminate|].
  all: exists w; split; [apply keeps_refl|]; simpl.
  all: repeat split; lookups.
Qed.





(** X4. No video is left behind.  If the names not yet handed out hold
    only audio files when a request starts, they hold only audio files
    when [worker] has finished: whether the request succeeds or fails,
    and at whatever step, neither the result nor its smaller version
    stays on disk. *)
Theorem worker_leaves_only_audio sv local w :
  audio_from (next_tmp w) w ->
  audio_from (next_tmp w) (worker sv local w).
Proof.
  intros Haudio p f Hp Hf.
  destruct (worker_lookup sv local w)
    as (wk & (_ & _ & Hkeep) & _ & Hsome & _).
  destruct (Hsome p) as [Hnone|Hsame]; [congruence|].
  rewrite Hsame in Hf. exact (Hkeep Haudio p f Hp Hf).
Qed.

(** The witness: the example request, in a world that holds the upload
    only. *)
Lemma worker_leaves_only_audio_witness :
  audio_from 1 (worker (demo example_transcript 1000) 0 (upload 10)).
Proof.
  apply (worker_leaves_only_audio (demo example_transcript 1000) 0 (upload 10)).
  intros p f Hp Hf. simpl in Hp, Hf.
  rewrite lookup_singleton_ne in Hf by lia. discriminate.
Defined.

(** ** The files behind the audio clips *)

(** The audio clip of a dubbed segment is backed by a file named during
    that segment. *)
Lemma dub_segment_backed sv st en dur text w w' v a :
  0 < dur ->
  dub_segment sv st en dur text w = (w', Ok (v, a)) ->
  backed w' a /\ (next_tmp w <= a_file a < next_tmp w')%nat.
Proof.
  intros Hdur H. unfold dub_segment in H.
  apply bind_inv in H as (w1 & tmp & Hsyn & H).
  destruct (synthesize_inv _ _ _ _ _ Hsyn)
    as (hin & spoken & y_fast & Htr & Htts & Hfast).
  rewrite (synthesize_run sv text hin spoken w Htr Htts) in Hsyn.
  rewrite Hfast in Hsyn. injection Hsyn as <- <-.
  apply bind_inv in H as (w2 & [v0 a0] & Hfit & H).
  unfold mbind, M_bind, bind, remove_if_exists in H. simpl in H.
  injection H as <- <- <-.
  set (n := next_tmp w) in *.
  set (fast_len := seconds_of (length y_fast) (wf_sr spoken)) in *.
  set (w1 := World _ _ _) in Hfit.
  assert (Hfile : fs w1 !! S (S n)
                  = Some (FAudio (Waveform y_fast (wf_sr spoken))))
    by apply lookup_insert_eq.
  destruct (Qle_bool fast_len dur) eqn:Hcase.
  - apply Qle_bool_iff in Hcase.
    rewrite (fit_case_A sv st en dur _ fast_len _ _ w1 Hfile Hcase) in Hfit.
    destruct (time_stretch sv y_fast (fast_len / dur)) as [y_adj|];
      [|discriminate].
    injection Hfit as <- <- <-. simpl. split; [|lia].
    exists y_adj, (wf_sr spoken). simpl. split; [|reflexivity].
    rewrite !lookup_delete_ne by lia. apply lookup_insert_eq.
  - apply Qle_bool_false in Hcase.
    rewrite (fit_case_B sv st en dur _ fast_len _ _ w1 Hfile Hdur Hcase) in Hfit.
    injection Hfit as <- <- <-. simpl. split; [|lia].
    exists y_fast, (wf_sr spoken). simpl. split; [|reflexivity].
    rewrite !lookup_delete_ne by lia. apply lookup_insert_eq.
Qed.

Lemma segment_loop_backed sv b D segs :
  forall v a w w' v' a',
    (b <= next_tmp w)%nat ->
    Forall (fun c => (b <= a_file c < next_tmp w)%nat /\ backed w c) a ->
    NoDup (a_file <$> a) ->
    segment_loop sv D segs v a w = (w', Ok (v', a')) ->
    (next_tmp w <= next_tmp w')%nat /\
    Forall (fun c => (b <= a_file c < next_tmp w')%nat /\ backed w' c) a' /\
    NoDup (a_file <$> a').
Proof.
  induction segs as [|s rest IH]; intros v a w w' v' a' Hb Hall Hnd H;
    simpl in H.
  - injection H as <- _ <-. auto.
  - destruct (Qle_bool D (seg_start s)); [injection H as <- _ <-; auto|].
    destruct (Qle_bool (py_min (seg_end s) D - seg_start s) 0) eqn:Hdur.
    + exact (IH _ _ _ _ _ _ Hb Hall Hnd H).
    + apply Qle_bool_false in Hdur.
      apply bind_inv in H as (w1 & [v1 a1] & Hdub & H).
      destruct (scoped_dub_segment sv (next_tmp w) (seg_start s)
                  (py_min (seg_end s) D)
                  (py_min (seg_end s) D - seg_start s) (seg_text s) w (le_n _))
        as [(Hnext & Hframe & _) _].
      rewrite Hdub in Hnext, Hframe. simpl in Hnext, Hframe.
      destruct (dub_segment_backed _ _ _ _ _ _ _ _ _ Hdur Hdub) as [Hback Hname].
      simpl in H.
      apply IH in H as (Hnext' & Hall' & Hnd'); [repeat split; auto; lia|lia| |].
      * apply Forall_app. split.
        -- eapply Forall_impl; [exact Hall|].
           intros c [Hc (y & sr & Hfile & Hd)]. split; [lia|].
           exists y, sr. split; [|exact Hd].
           rewrite Hframe by lia. exact Hfile.
        -- constructor; [|constructor]. split; [lia | exact Hback].
      * rewrite fmap_app. apply NoDup_app. split; [exact Hnd|].
        split; [|apply NoDup_singleton].
        intros x Hx Hx1. apply list_elem_of_singleton in Hx1. subst x.
        apply list_elem_of_fmap in Hx as (c & Hfile & Hc).
        rewrite Forall_forall in Hall.
        destruct (Hall c Hc) as [Hlt _]. simpl in Hfile. lia.
Qed.



(** ** Drift over the whole timeline *)





(** ** The extracted audio *)



(** ** A video without speech *)

Lemma nothing_retained_nothing_done sv D segs v a w :
  retained D segs = [] ->
  segment_loop sv D segs v a w = (w, Ok (v, a)).
Proof.
  induction segs as [|s rest IH]; simpl; [reflexivity|].
  destruct (Qle_bool D (seg_start s)); [reflexivity|].
  destruct (Qle_bool _ 0); [exact IH | discriminate].
Qed.

(** X8. A video without speech.  When no segment of the transcript is
    retained (whisper found none, or all of them lie outside the video
    or have no length), nothing is translated, synthesised or stretched,
    and the assembly is asked to encode two empty lists of clips: there
    is no guard before it, and [process_video] returns exactly when the
    encoder accepts the empty lists. *)
Theorem silent_video_assembles_nothing sv path vid segs w :
  fs w !! path = Some (FUpload vid) ->
  transcribe sv (vid_audio vid) = Some segs ->
  retained (vid_duration vid) segs = [] ->
  let out := S (next_tmp w) in
  trace (process_video sv path w).1 = trace w ++ [EvEncode out None] /\
  (process_video sv path w).2
  = match encode sv [] [] None with
    | Some _ => Ok out
    | None => Raise (External Encoder)
    end.
Proof.
  intros Hpath Hsegs Hnone out.
  rewrite (process_video_run sv path vid w Hpath). rewrite Hsegs.
  rewrite (nothing_retained_nothing_done sv _ segs [] [] _ Hnone). simpl.
  now destruct (encode sv [] [] None).
Qed.

(** The witness: a transcript whose only segments have no length or
    start after the end. *)
Lemma silent_video_assembles_nothing_witness :
  let segs := [Segment 7 7 "nothing"; Segment 11 12 "too late"] in
  trace (process_video (demo segs 1000) 0 (upload 10)).1 = [EvEncode 2 None].
Proof.
  intros segs.
  refine (proj1 (silent_video_assembles_nothing (demo segs 1000) 0
                   (Video 10 (Waveform [] 100)) segs (upload 10) _ _ _)).
  - reflexivity.
  - reflexivity.
  - reflexivity.
Defined.

(** ** The video clips of the timeline *)

Lemma py_min_le_r a b : py_min a b <= b.
Proof.
  unfold py_min. destruct (Qle_bool a b) eqn:E.
  - now apply Qle_bool_iff.
  - apply Qle_refl.
Qed.

Lemma dub_segment_playable sv D st en text w w' v a :
  0 < en - st ->
  en <= D ->
  dub_segment sv st en (en - st) text w = (w', Ok (v, a)) ->
  playable D v.
Proof.
  intros Hdur Hen H. unfold dub_segment in H.
  apply bind_inv in H as (w1 & [[[mp3 wav_in] wav_fast] fast_len] & _ & H).
  apply bind_inv in H as (w2 & [v0 a0] & Hfit & H).
  unfold mbind, M_bind, bind, remove_if_exists in H. simpl in H.
  injection H as _ <- _.
  apply fit_video_clip in Hfit. subst v0. unfold playable.
  destruct (Qle_bool fast_len (en - st)) eqn:Hcase; simpl.
  - repeat split; [lra | exact Hen | now left].
  - apply Qle_bool_false in Hcase.
    destruct (Qlt_bool ((en - st) / fast_len) 1) eqn:Hslow; simpl.
    + apply Qlt_bool_iff in Hslow.
      repeat split; [lra | exact Hen |].
      right. eexists. split; [reflexivity|].
      split; [apply Qlt_shift_div_l; lra | exact Hslow].
    + repeat split; [lra | exact Hen | now left].
Qed.

Lemma segment_loop_playable sv D segs :
  forall v a w w' v' a',
    Forall (playable D) v ->
    segment_loop sv D segs v a w = (w', Ok (v', a')) ->
    Forall (playable D) v'.
Proof.
  induction segs as [|s rest IH]; intros v a w w' v' a' Hall H; simpl in H.
  - now injection H as _ <- _.
  - destruct (Qle_bool D (seg_start s)); [now injection H as _ <- _|].
    destruct (Qle_bool (py_min (seg_end s) D - seg_start s) 0) eqn:Hdur.
    + exact (IH _ _ _ _ _ _ Hall H).
    + apply Qle_bool_false in Hdur.
      apply bind_inv in H as (w1 & [v1 a1] & Hdub & H).
      apply (dub_segment_playable sv D) in Hdub;
        [|exact Hdur | apply py_min_le_r].
      apply IH in H; [exact H|].
      apply Forall_app. split; [exact Hall | now constructor].
Qed.

(** X9. The video clips of the timeline.  Every video clip of the video
    written by [process_video] is a window of positive length that ends
    within the uploaded video, and it carries either no speed factor or
    exactly one, strictly between 0 and 1: no clip runs past the end of
    the source, is empty, or is sped up. *)
Theorem video_clips_are_playable sv path vid w w' out :
  fs w !! path = Some (FUpload vid) ->
  process_video sv path w = (w', Ok out) ->
  exists m,
    fs w' !! out = Some (FVideo m) /\
    Forall (playable (vid_duration vid)) (mv_video m).
Proof.
  intros Hpath H.
  apply process_video_timeline in H
    as (vid' & segs & w1 & w2 & v & a & size & Hpath' & _ & Hloop & _ & Hout).
  rewrite Hpath in Hpath'. injection Hpath' as <-.
  exists (Movie v a None size). split; [exact Hout|]. simpl.
  eapply segment_loop_playable; [|exact Hloop]. constructor.
Qed.

(** The witness: the example request; the segment from 8 to 12 gives a
    clip that ends at 10. *)
Lemma video_clips_are_playable_witness :
  exists m,
    fs (process_video (demo example_transcript 1000) 0 (upload 10)).1 !! 13%nat
    = Some (FVideo m) /\
    Forall (playable 10) (mv_video m).
Proof.
  apply (video_clips_are_playable (demo example_transcript 1000) 0
           (Video 10 (Waveform [] 100)) (upload 10)).
  - reflexivity.
  - vm_compute. reflexivity.
Defined.

(** ** The duration that the stretch helper returns *)



(** ** Leaving the loop early *)

Lemma late_segments_not_dubbable D segs :
  Forall (fun s => D <= seg_start s) segs ->
  List.filter (dubbable D) segs = [].
Proof.
  induction 1 as [|s rest Hs _ IH]; simpl; [reflexivity|].
  apply Qle_bool_iff in Hs. unfold dubbable at 1. now rewrite Hs.
Qed.

Lemma retained_filter D segs :
  non_decreasing (map seg_start segs) ->
  retained D segs = List.filter (dubbable D) segs.
Proof.
  unfold non_decreasing. intros Hsorted.
  apply Sorted_StronglySorted in Hsorted; [|exact Qle_trans].
  induction segs as [|s rest IH]; simpl; [reflexivity|].
  inversion Hsorted as [|x l Hrest Hall]; subst.
  unfold dubbable at 1.
  destruct (Qle_bool D (seg_start s)) eqn:Hlate; simpl.
  - apply Qle_bool_iff in Hlate. symmetry.
    apply late_segments_not_dubbable.
    pose proof (proj1 (Forall_map seg_start (Qle (seg_start s)) rest) Hall) as H.
    eapply Forall_impl; [exact H|].
    intros s' Hs'. simpl in Hs'. now apply (Qle_trans _ (seg_start s)).
  - destruct (Qle_bool _ 0); simpl; [now apply IH|].
    f_equal. now apply IH.
Qed.

(** X11. Leaving the loop at the first late segment loses nothing in a
    transcript whose starts never decrease: the clips of a run that
    returns are then those of all the segments of the transcript that
    pass the two guards, each taken alone, in the order of the
    transcript. *)
Theorem sorted_transcript_loses_nothing sv D segs w w' v' a' :
  non_decreasing (map seg_start segs) ->
  segment_loop sv D segs [] [] w = (w', Ok (v', a')) ->
  Forall2 (cut_from D) v' (List.filter (dubbable D) segs) /\
  length a' = length (List.filter (dubbable D) segs).
Proof.
  intros Hsorted Hloop.
  rewrite <- (retained_filter D segs Hsorted).
  apply segment_loop_order in Hloop as (Hcut & Hlen & _).
  now split.
Qed.

(** The witness: the example transcript, whose starts never decrease. *)
Lemma sorted_transcript_loses_nothing_witness :
  Forall2 (cut_from 10) [VClip 0 5 []; VClip 5 7 [200 # 355]; VClip 8 10 []]
          (List.filter (dubbable 10) example_transcript).
Proof.
  refine (proj1 (sorted_transcript_loses_nothing (demo [] 0) 10
    example_transcript (upload 10)
    (segment_loop (demo [] 0) 10 example_transcript [] [] (upload 10)).1
    [VClip 0 5 []; VClip 5 7 [200 # 355]; VClip 8 10 []]
    [AClip 4 (500 # 100); AClip 7 (355 # 100); AClip 11 (200 # 100)] _ _)).
  - unfold non_decreasing. simpl. repeat (constructor; try discriminate).
  - vm_compute. reflexivity.
Defined.

(** In a transcript whose starts do decrease, a segment inside the video
    that comes after a late one is lost. *)
Lemma unsorted_transcript_loses_a_segment :
  let segs := [Segment 11 12 "late"; Segment 1 2 "lost"] in
  segment_loop (demo [] 0) 10 segs [] [] (upload 10) = (upload 10, Ok ([], []))
  /\ List.filter (dubbable 10) segs = [Segment 1 2 "lost"].
Proof. split; reflexivity. Qed.

(** ** What a successful request leaves on disk *)

(** X12. When a request has succeeded and [worker] has finished, the
    result is no longer on disk, but the file of every audio clip of the
    timeline still is, with its audio: nothing in [process_video] or in
    [worker] ever removes the outputs of the stretch helper. *)
Theorem audio_files_outlive_the_request sv local w w' out :
  (local < next_tmp w)%nat ->
  process_video sv local w = (w', Ok out) ->
  exists m,
    fs w' !! out = Some (FVideo m) /\
    fs (worker sv local w) !! out = None /\
    Forall (backed (worker sv local w)) (mv_audio m).
Proof.
  intros Hold H.
  destruct (fs w !! local) as [[a0|vid|m0]|] eqn:Hlocal.
  2:{ pose proof (process_video_run sv local vid w Hlocal) as Hrun.
      simpl in Hrun. unfold worker. rewrite Hrun. rewrite Hrun in H.
      set (wav := next_tmp w) in *. set (w1 := World _ _ _) in *.
      destruct (transcribe sv (vid_audio vid)) as [segs|]; [|discriminate].
      destruct (segment_loop sv (vid_duration vid) segs [] [] w1)
        as [w2 [[v a]|e]] eqn:Hloop; [|discriminate].
      apply (segment_loop_backed sv (S wav)) in Hloop
        as (Hnext & Hall & _); [|simpl; lia|constructor|constructor].
      simpl in H, Hnext |- *.
      destruct (encode sv v a None) as [size|]; [|discriminate].
      injection H as <- <-.
      exists (Movie v a None size).
      assert (Hout : delete wav (<[next_tmp w2 := FVideo (Movie v a None size)]>
                                   (fs w2)) !! next_tmp w2
                     = Some (FVideo (Movie v a None size))).
      { rewrite lookup_delete_ne by lia. apply lookup_insert_eq. }
      split; [exact Hout|].
      erewrite ensure_under_limit_run; [|exact Hout|simpl; lia].
      clearbody wav. clear Hout Hrun.
      destruct (MAX_SIZE <? _)%N; [destruct (encode sv _ _ (Some 480%N))|];
        simpl.
      all: split; [lookups|].
      all: eapply Forall_impl; [exact Hall|].
      all: intros c [Hc (y & sr & Hfile & Hd)].
      all: exists y, sr; split; [|exact Hd]; simpl; lookups. }
  all: destruct (process_video_no_upload sv local w) as (e & He & _);
    [intros vid; rewrite Hlocal; discriminate | congruence].
Qed.

(** The witness: the example request; the files 5, 8 and 12 of the three
    audio clips are there after [worker]. *)
Lemma audio_files_outlive_the_request_witness :
  exists m,
    fs (process_video (demo example_transcript 1000) 0 (upload 10)).1 !! 13%nat
    = Some (FVideo m) /\
    fs (worker (demo example_transcript 1000) 0 (upload 10)) !! 13%nat = None /\
    Forall (backed (worker (demo example_transcript 1000) 0 (upload 10)))
           (mv_audio m).
Proof.
  apply (audio_files_outlive_the_request (demo example_transcript 1000) 0
           (upload 10)).
  - simpl. lia.
  - vm_compute. reflexivity.
Defined.
